(** * Vec: a bounds-checked wrapper over std::vector

    A shallow embedding of [vec/vec.h] and [concepts/concepts.h].

    A member function of [Vec<T>] is a computation over the object it is
    called on.  A call returns normally, lets an exception escape, steps
    outside the contract of the wrapped [std::vector], or is refused at
    compile time because no function is viable.  The cases are kept apart
    so that "never raises" and "raises X" are statements about the code
    and not about the model.  A reference returned by a member is read as
    the element it designates. *)

From stdpp Require Import base list strings pretty.
From Stdlib Require Import ZArith NArith Lia.

Local Open Scope N_scope.

(** ** Outcomes and the computation monad *)

Module error.
(** [namespace error]: the two exception classes of the header, each
    holding the message handed to its constructor.  [StdOutOfRange] is
    [std::out_of_range], the exception of [std::vector::at]. *)
Inductive exception : Type :=
| NoSuchElement (message : string)
| IndexOutOfBounds (message : string)
| StdOutOfRange.

Definition what (e : exception) : string :=
  match e with
  | NoSuchElement message => message
  | IndexOutOfBounds message => message
  | StdOutOfRange => "vector"
  end.
End error.

Inductive outcome (A : Type) : Type :=
| Ok (a : A)                   (* normal return *)
| Throw (e : error.exception)  (* an exception leaves the call *)
| Undefined                    (* a precondition of std::vector is violated *)
| OutOfFuel                    (* the loop budget of the model is used up *)
| Rejected.                    (* the call has no viable function *)
Arguments Ok {A} a.
Arguments Throw {A} e.
Arguments Undefined {A}.
Arguments OutOfFuel {A}.
Arguments Rejected {A}.

(** A computation over an object of type [S] that yields an [A]. *)
Definition M (S A : Type) : Type := S -> outcome (A * S).

Definition ret {S A} (a : A) : M S A := fun s => Ok (a, s).

Definition bind {S A B} (m : M S A) (k : A -> M S B) : M S B :=
  fun s =>
    match m s with
    | Ok (a, s') => k a s'
    | Throw e => Throw e
    | Undefined => Undefined
    | OutOfFuel => OutOfFuel
    | Rejected => Rejected
    end.

Definition throw {S A} (e : error.exception) : M S A := fun _ => Throw e.
Definition out_of_fuel {S A} : M S A := fun _ => OutOfFuel.
Definition rejected {S A} : M S A := fun _ => Rejected.
Definition gets {S A} (f : S -> A) : M S A := fun s => Ok (f s, s).

Declare Scope cpp_scope.
Delimit Scope cpp_scope with cpp.
Notation "x <- m ;; k" := (bind m (fun x => k))
  (at level 100, m at next level, right associativity) : cpp_scope.
Notation "m ;; k" := (bind m (fun _ => k))
  (at level 100, right associativity) : cpp_scope.
Local Open Scope cpp_scope.

(** ** Machine integers *)

(** [Size] is [std::vector<T>::size_type], an unsigned 64-bit integer. *)
Definition Size : Type := N.
Definition Size_modulus : N := 2 ^ 64.
(** [i + 1] and [i - 1] in [Size]: unsigned arithmetic wraps. *)
Definition Size_succ (i : Size) : Size := (i + 1) mod Size_modulus.
Definition Size_pred (i : Size) : Size := (i + (Size_modulus - 1)) mod Size_modulus.

(** [std::to_string] on a [Size]. *)
Definition to_string (n : Size) : string := pretty n.

(** ** The wrapped container *)

Module std_vector.
(** What the header uses of [std::vector<T>]: the live elements in order
    and the capacity of the allocation.  The operations follow the C++
    standard; those with a precondition are [Undefined] outside it.  The
    capacity a constructor leaves is implementation-defined and at least
    the size; the model takes the size. *)
Record vector (T : Type) : Type := mk { elems : list T; capacity : Size }.
Arguments mk {T} elems capacity.
Arguments elems {T} v.
Arguments capacity {T} v.

Section Ops.
Context {T : Type}.

(** [vector()], [vector(n, val)], [vector(const vector&)]. *)
Definition default : vector T := mk [] 0.
Definition fill (n : Size) (val : T) : vector T :=
  mk (replicate (N.to_nat n) val) n.
Definition copy (other : vector T) : vector T :=
  mk (elems other) (N.of_nat (length (elems other))).

Definition size (v : vector T) : Size := N.of_nat (length (elems v)).

(** [empty()] is [begin() == end()]. *)
Definition empty (v : vector T) : bool :=
  match elems v with [] => true | _ :: _ => false end.

(** [at(n)]: range-checked, throws [std::out_of_range]. *)
Definition at_ (n : Size) : M (vector T) T :=
  fun v =>
    if size v <=? n then Throw error.StdOutOfRange
    else match elems v !! N.to_nat n with
         | Some x => Ok (x, v)
         | None => Undefined
         end.

(** [operator[](n)] read: requires [n < size()]. *)
Definition index (n : Size) : M (vector T) T :=
  fun v =>
    match elems v !! N.to_nat n with
    | Some x => Ok (x, v)
    | None => Undefined
    end.

(** [operator[](n) = x]: requires [n < size()]. *)
Definition assign_index (n : Size) (x : T) : M (vector T) unit :=
  fun v =>
    if n <? size v
    then Ok (tt, mk (<[N.to_nat n := x]> (elems v)) (capacity v))
    else Undefined.

(** [front()] and [back()]: require a non-empty vector. *)
Definition front : M (vector T) T :=
  fun v => match head (elems v) with Some x => Ok (x, v) | None => Undefined end.
Definition back : M (vector T) T :=
  fun v => match last (elems v) with Some x => Ok (x, v) | None => Undefined end.

(** [pop_back()]: requires a non-empty vector; the capacity stays. *)
Definition pop_back : M (vector T) unit :=
  fun v =>
    match elems v with
    | [] => Undefined
    | _ :: _ => Ok (tt, mk (removelast (elems v)) (capacity v))
    end.

(** [clear()]: erases all elements and leaves the capacity unchanged. *)
Definition clear : M (vector T) unit :=
  fun v => Ok (tt, mk [] (capacity v)).
(** The capacity after a request for room for [needed] elements: kept
    when it suffices, else the larger of twice the capacity and the need
    (the growth policy of libc++, whose internals [concepts.h] names).
    Failure to allocate is outside the model. *)
Definition grow (cap needed : Size) : Size :=
  if needed <=? cap then cap else N.max (2 * cap) needed.

(** [push_back(val)]. *)
Definition push_back (val : T) : M (vector T) unit :=
  fun v => Ok (tt, mk (elems v ++ [val]) (grow (capacity v) (size v + 1))).

(** The modifiers that take iterators.  An iterator into the vector is
    read as its offset from [begin()], so [end()] is [size()].  They
    require a position inside [[begin(), end()]] and return an iterator
    to the first element inserted, or to the element after the erased
    ones. *)
Definition insert_run (pos : Size) (run : list T) : M (vector T) Size :=
  fun v =>
    if pos <=? size v then
      Ok (pos,
          mk (take (N.to_nat pos) (elems v) ++ run
              ++ drop (N.to_nat pos) (elems v))
             (grow (capacity v) (size v + N.of_nat (length run))))
    else Undefined.

(** [insert(pos, val)], [insert(pos, n, val)], [insert(pos, list)]. *)
Definition insert (pos : Size) (val : T) : M (vector T) Size :=
  insert_run pos [val].
Definition insert_n (pos : Size) (n : Size) (val : T) : M (vector T) Size :=
  insert_run pos (replicate (N.to_nat n) val).
Definition insert_list (pos : Size) (list : list T) : M (vector T) Size :=
  insert_run pos list.

(** [erase(pos)]: requires a position that holds an element. *)
Definition erase (pos : Size) : M (vector T) Size :=
  fun v =>
    if pos <? size v then
      Ok (pos, mk (delete (N.to_nat pos) (elems v)) (capacity v))
    else Undefined.

(** [erase(first, last)]: requires [first <= last <= end()]. *)
Definition erase_range (first last : Size) : M (vector T) Size :=
  fun v =>
    if (first <=? last) && (last <=? size v) then
      Ok (first,
          mk (take (N.to_nat first) (elems v) ++ drop (N.to_nat last) (elems v))
             (capacity v))
    else Undefined.

(** [reserve(n)]: reallocates only when [n] exceeds the capacity. *)
Definition reserve (n : Size) : M (vector T) unit :=
  fun v =>
    Ok (tt, mk (elems v) (if capacity v <? n then n else capacity v)).

(** [resize(n, val)]: cuts to the first [n] elements or pads with copies
    of [val]. *)
Definition resize (n : Size) (val : T) : M (vector T) unit :=
  fun v =>
    Ok (tt, mk (list.resize (N.to_nat n) val (elems v))
               (grow (capacity v) n)).

(** [shrink_to_fit()]: gives up the room beyond the size. *)
Definition shrink_to_fit : M (vector T) unit :=
  fun v =>
    Ok (tt, mk (elems v)
               (if size v <? capacity v then size v else capacity v)).

(** [assign(first, last)] and [assign(list)]: the new contents replace
    the old. *)
Definition assign (list : list T) : M (vector T) unit :=
  fun v => Ok (tt, mk list (grow (capacity v) (N.of_nat (length list)))).
End Ops.
End std_vector.

(** ** class Vec *)

(** [using Underlying = std::vector<T>] and the one data member [self]. *)
Definition Underlying (T : Type) : Type := std_vector.vector T.
Record Vec (T : Type) : Type := mkVec { self : Underlying T }.
Arguments mkVec {T} self.
Arguments self {T} v.

(** Run a [std::vector] member function on the member [self]. *)
Definition on_self {T A} (m : M (Underlying T) A) : M (Vec T) A :=
  fun v =>
    match m (self v) with
    | Ok (a, u) => Ok (a, mkVec u)
    | Throw e => Throw e
    | Undefined => Undefined
    | OutOfFuel => OutOfFuel
    | Rejected => Rejected
    end.

Section Members.
Context {T : Type}.

(** [Vec()]. *)
Definition Vec_default : Vec T := mkVec std_vector.default.

(** Observers: [size], [cap], [is_empty]. *)
Definition size (v : Vec T) : Size := std_vector.size (self v).
Definition cap (v : Vec T) : Size := std_vector.capacity (self v).
Definition is_empty (v : Vec T) : bool := std_vector.empty (self v).

(** The elements of the container, first to last. *)
Definition elements (v : Vec T) : list T := std_vector.elems (self v).

(** [at(i)], in its mutable and its read-only form (same body).  The test
    [i >= self.size()] is written [sz <=? i]. *)
Definition at_ (i : Size) : M (Vec T) T :=
  sz <- gets size ;;
  if sz <=? i then
    throw (error.IndexOutOfBounds
             ("invalid index for vector of size " +:+ to_string sz +:+ "."))
  else on_self (std_vector.at_ i).

(** [operator[](i)]. *)
Definition operator_subscript (i : Size) : M (Vec T) T :=
  sz <- gets size ;;
  if sz <=? i then
    throw (error.IndexOutOfBounds
             ("index too large for vector of size " +:+ to_string sz +:+ "."))
  else on_self (std_vector.at_ i).

(** [clear()]. *)
Definition clear : M (Vec T) unit := on_self std_vector.clear.

(** [peek_back()] and [peek_front()], mutable and read-only forms alike. *)
Definition peek_back : M (Vec T) T :=
  e <- gets (fun v => std_vector.empty (self v)) ;;
  if e then throw (error.NoSuchElement "vector is empty.")
  else on_self std_vector.back.

Definition peek_front : M (Vec T) T :=
  e <- gets (fun v => std_vector.empty (self v)) ;;
  if e then throw (error.NoSuchElement "vector is empty.")
  else on_self std_vector.front.

(** [pop_back()]: [std::nullopt] is [None]. *)
Definition pop_back : M (Vec T) (option T) :=
  e <- gets is_empty ;;
  if e then ret None
  else
    result <- peek_back ;;
    on_self std_vector.pop_back ;;
    ret (Some result).

(** [Vec(std::initializer_list<T>)] and [from(std::initializer_list<T>)]. *)
Definition Vec_list (list : list T) : Vec T :=
  mkVec (std_vector.mk list (N.of_nat (length list))).
Definition from_list (list : list T) : Vec T := Vec_list list.

(** [from(const Vec<T>&)]. *)
Definition from_Vec (other : Vec T) : Vec T :=
  let result : Vec T := Vec_default in
  let result : Vec T := mkVec (std_vector.copy (self other)) in
  result.

(** The implicit copy constructor [Vec(const Vec&)]. *)
Definition Vec_copy (other : Vec T) : Vec T :=
  mkVec (std_vector.copy (self other)).

(** [of(n, default_val)]. *)
Definition of_ (n : Size) (default_val : T) : Vec T :=
  let result : Vec T := Vec_default in
  let result : Vec T := mkVec (std_vector.fill n default_val) in
  result.

(** [swap(other)] acts on the two objects [( *this, other)].  Its body is
    [self.swap(other)]: the only [std::vector<T>::swap] takes a
    [std::vector<T>&], and the argument is [other] itself, a [Vec<T>],
    not [other.self].  [Vec<T>] has no base class and no conversion
    function, so the reference cannot bind and the member cannot be
    instantiated: every call of [swap] is refused by the compiler. *)
Definition swap : M (Vec T * Vec T) unit := rejected.
End Members.

(** ** Element types *)

(** [int]: 32 bits, two's complement.  Signed overflow has no defined
    result in C++; the model wraps, as the usual targets do. *)
Definition int : Type := Z.
Definition int_wrap (z : Z) : int :=
  ((z + 2 ^ 31) mod 2 ^ 32 - 2 ^ 31)%Z.

(** [unsigned char]: 8 bits; conversion from [int] reduces modulo 256. *)
Definition unsigned_char : Type := Z.
Definition unsigned_char_of_int (z : int) : unsigned_char := (z mod 2 ^ 8)%Z.

(** [std::numeric_limits<U>::is_integer]. *)
Class numeric_limits (U : Type) : Type := { is_integer : bool }.
Arguments is_integer U {_}.

#[export] Instance numeric_limits_int : numeric_limits int :=
  {| is_integer := true |}.
#[export] Instance numeric_limits_string : numeric_limits string :=
  {| is_integer := false |}.

(** [val + by], [val - by] and [val * by] for a [T val] and an [int by],
    converted back to [T]. *)
Class Arithmetic (T : Type) : Type := {
  plus : T -> int -> T;
  minus : T -> int -> T;
  times : T -> int -> T
}.

#[export] Instance Arithmetic_int : Arithmetic int := {|
  plus val by_ := int_wrap (val + by_);
  minus val by_ := int_wrap (val - by_);
  times val by_ := int_wrap (val * by_)
|}.

(** ** namespace pattern *)

Module pattern.
(** [using Pattern = T ( * ) (const T&)], a function without state. *)
Definition Pattern (T : Type) : Type := T -> T.

Section Patterns.
Context {T : Type} `{Arithmetic T}.

(** The template argument [by] defaults to 1, 1 and 2. *)
Definition Incr (by_ : int) : Pattern T := fun val => plus val by_.
Definition Decr (by_ : int) : Pattern T := fun val => minus val by_.
Definition Mult (by_ : int) : Pattern T := fun val => times val by_.
End Patterns.
End pattern.

(** ** Vec::with *)

Section With.
Context {T : Type} `{numeric_limits T}.

(** The loop [for (Size i = 1; i < self.size(); i++)], one test of the
    condition per unit of [fuel]. *)
Fixpoint with_loop (fuel : nat) (pat : pattern.Pattern T) (i : Size)
  : M (Vec T) unit :=
  match fuel with
  | O => out_of_fuel
  | S fuel' =>
      sz <- gets size ;;
      if i <? sz then
        prev <- on_self (std_vector.index (Size_pred i)) ;;
        on_self (std_vector.assign_index i (pat prev)) ;;
        with_loop fuel' pat (Size_succ i)
      else ret tt
  end.

(** [with(pat)], available when [numeric_limits<U>::is_integer] holds; the
    pattern's [U] is the element type.  It returns [*this] by value. *)
Definition with_fuel (fuel : nat) (pat : pattern.Pattern T)
  : M (Vec T) (Vec T) :=
  if is_integer T then
    with_loop fuel pat 1 ;;
    gets Vec_copy
  else rejected.

(** The condition is tested once per element, and once on an empty
    container. *)
Definition with_ (pat : pattern.Pattern T) : M (Vec T) (Vec T) :=
  fun v => with_fuel (S (length (elements v))) pat v.
End With.

(** ** namespace vector (concepts.h) *)

Module vector.
(** The standard iterator tags; each derives from the one before it,
    [output_iterator_tag] apart. *)
Inductive iterator_category : Type :=
| input_iterator_tag
| output_iterator_tag
| forward_iterator_tag
| bidirectional_iterator_tag
| random_access_iterator_tag.

(** What the concepts read of an iterator type whose [reference] is [R]:
    its [iterator_category], if it has one, and how a [T] is constructed
    from an [R], if [std::is_constructible<T, R>] holds. *)
Record Iterator (R T : Type) : Type := {
  category : option iterator_category;
  construct : option (R -> T)
}.
Arguments category {R T} i.
Arguments construct {R T} i.

(** Is tag [c] convertible to tag [base]? *)
Definition convertible_to (c base : iterator_category) : bool :=
  match base, c with
  | input_iterator_tag,
    (input_iterator_tag | forward_iterator_tag
    | bidirectional_iterator_tag | random_access_iterator_tag) => true
  | output_iterator_tag, output_iterator_tag => true
  | forward_iterator_tag,
    (forward_iterator_tag | bidirectional_iterator_tag
    | random_access_iterator_tag) => true
  | bidirectional_iterator_tag,
    (bidirectional_iterator_tag | random_access_iterator_tag) => true
  | random_access_iterator_tag, random_access_iterator_tag => true
  | _, _ => false
  end.

Section Concepts.
Context {R T : Type}.

(** [std::__is_cpp17_input_iterator] and [std::__is_cpp17_forward_iterator]
    of libc++: the category converts to the tag. *)
Definition is_cpp17_input_iterator (it : Iterator R T) : bool :=
  match category it with
  | Some c => convertible_to c input_iterator_tag
  | None => false
  end.
Definition is_cpp17_forward_iterator (it : Iterator R T) : bool :=
  match category it with
  | Some c => convertible_to c forward_iterator_tag
  | None => false
  end.
Definition is_constructible (it : Iterator R T) : bool :=
  match construct it with Some _ => true | None => false end.

Definition IsInputIterator (it : Iterator R T) : bool :=
  is_cpp17_input_iterator it
  && negb (is_cpp17_forward_iterator it)
  && is_constructible it.

Definition IsForwardIterator (it : Iterator R T) : bool :=
  is_cpp17_forward_iterator it && is_constructible it.

Definition IsValidIterator (it : Iterator R T) : bool :=
  IsForwardIterator it || IsInputIterator it.
End Concepts.
End vector.

(** ** Vec::from over a range *)

(** [std::vector(first, last)]: one element per position of the range,
    each constructed from what the iterator yields there, in order. *)
Definition vector_range {R T} (emplace : R -> T) (range : list R)
  : Underlying T :=
  std_vector.mk (map emplace range) (N.of_nat (length range)).

(** [from(begin, end)]: [range] lists what [*begin], [*(begin + 1)], ...
    yield up to [end].  The requires-clause decides whether the call
    compiles. *)
Definition from {R T} (it : vector.Iterator R T) (range : list R)
  : outcome (Vec T) :=
  if vector.IsValidIterator it then
    match vector.construct it with
    | Some emplace =>
        let result : Vec T := Vec_default in
        let result : Vec T := mkVec (vector_range emplace range) in
        Ok result
    | None => Rejected
    end
  else Rejected.

(** ** operator<< *)

(** The stream is the text written to it so far; [put x] is the text that
    [os << x] adds for an element [x]. *)
Definition ostream : Type := string.
Class Insertable (T : Type) : Type := put : T -> string.
#[export] Instance Insertable_int : Insertable int := fun x => pretty (x : Z).

Section Print.
Context {T : Type} `{Insertable T}.

(** The loop over [iter] from [cbegin()] to [cend()].  The container is
    not modified, so an iterator is the run of elements from its position
    to the end: [cend()] is the empty run, [*iter] the head, [iter + 1]
    the tail. *)
Fixpoint print_loop (os : ostream) (iter : list T) : ostream :=
  match iter with
  | [] => os
  | x :: next =>
      let os := os +:+ put x in
      let os := match next with
                | [] => os
                | _ :: _ => os +:+ ", "
                end in
      print_loop os next
  end.

Definition operator_ltlt (os : ostream) (vec : Vec T) : ostream :=
  let os := os +:+ "[" in
  let os := print_loop os (elements vec) in
  os +:+ "]".

(** The rendering as the specification words it: the elements' texts
    joined by [", "] inside brackets. *)
Definition rendering_spec (l : list T) : string :=
  "[" +:+ String.concat ", " (map put l) +:+ "]".
End Print.

(** ** The modifiers of Vec *)

(** [T()], the value a default-constructed [T] has. *)
Class DefaultConstructible (T : Type) : Type := T_default : T.
#[export] Instance DefaultConstructible_int : DefaultConstructible int := 0%Z.

Section Modifiers.
Context {T : Type}.

(** [push_back(val)]. *)
Definition push_back (val : T) : M (Vec T) unit :=
  on_self (std_vector.push_back val).

(** [insert(at, val)], [fill(at, n, val)], [insert_list(at, list)]. *)
Definition insert (at_ : Size) (val : T) : M (Vec T) Size :=
  on_self (std_vector.insert at_ val).
Definition fill (at_ : Size) (n : Size) (val : T) : M (Vec T) Size :=
  on_self (std_vector.insert_n at_ n val).
Definition insert_list (at_ : Size) (list : list T) : M (Vec T) Size :=
  on_self (std_vector.insert_list at_ list).

(** [insert_range(at, begin, end)], under the same requires-clause as
    [from]; [range] lists what the source yields. *)
Definition insert_range {R} (it : vector.Iterator R T) (at_ : Size)
    (range : list R) : M (Vec T) Size :=
  if vector.IsValidIterator it then
    match vector.construct it with
    | Some emplace => on_self (std_vector.insert_list at_ (map emplace range))
    | None => rejected
    end
  else rejected.

(** [remove(at)] and [remove_range(begin, end)]. *)
Definition remove (at_ : Size) : M (Vec T) Size :=
  on_self (std_vector.erase at_).
Definition remove_range (begin_ end_ : Size) : M (Vec T) Size :=
  on_self (std_vector.erase_range begin_ end_).

(** [request_cap(n)], [resize(n)], [resize(n, val)], [shrink()]. *)
Definition request_cap (n : Size) : M (Vec T) unit :=
  on_self (std_vector.reserve n).
Definition resize `{DefaultConstructible T} (n : Size) : M (Vec T) unit :=
  on_self (std_vector.resize n T_default).
Definition resize_val (n : Size) (val : T) : M (Vec T) unit :=
  on_self (std_vector.resize n val).
Definition shrink : M (Vec T) unit := on_self std_vector.shrink_to_fit.

(** [begin()] and [end()], and [cbegin()] and [cend()] alike, as offsets
    from the first element. *)
Definition begin_ (v : Vec T) : Size := 0.
Definition end_ (v : Vec T) : Size := size v.

(** [reassign(begin, end)] over the elements between two iterators of a
    [Vec<T>], and [reassign(list)]. *)
Definition reassign (range : list T) : M (Vec T) unit :=
  on_self (std_vector.assign range).
Definition reassign_list (list : list T) : M (Vec T) unit :=
  on_self (std_vector.assign list).

(** The allocation holds the elements: the invariant of [std::vector]
    that every member relies on. *)
Definition within_capacity (v : Vec T) : Prop := size v <= cap v.
End Modifiers.

(** The member [m] keeps the invariant: run on a container within its
    capacity, it leaves one, if it returns. *)
Definition keeps_capacity {T A} (m : M (Vec T) A) : Prop :=
  forall v a v', within_capacity v -> m v = Ok (a, v') -> within_capacity v'.

(** An [int] is a value of 32 bits. *)
Definition int_range (z : Z) : Prop := (- 2 ^ 31 <= z < 2 ^ 31)%Z.

(** ** Iterator types used below *)

(** [int*], as [std::array<int, N>::begin()] gives it, read into a
    [Vec<int>]: random access, and an [int] is copy-constructed from an
    [int&]. *)
Definition int_pointer : vector.Iterator int int := {|
  vector.category := Some vector.random_access_iterator_tag;
  vector.construct := Some (fun x => x)
|}.

(** [int*] read into a [Vec<unsigned char>]: an [unsigned char] is
    constructible from an [int&], by the integral conversion. *)
Definition int_pointer_to_unsigned_char
  : vector.Iterator int unsigned_char := {|
  vector.category := Some vector.random_access_iterator_tag;
  vector.construct := Some unsigned_char_of_int
|}.

(** * Properties *)

(** ** Sizes, emptiness and the std::vector layer *)

Lemma size_elements {T} (v : Vec T) : size v = N.of_nat (length (elements v)).
Proof. reflexivity. Qed.

Lemma is_empty_elements {T} (v : Vec T) :
  is_empty v = true <-> elements v = [].
Proof.
  unfold is_empty, std_vector.empty, elements.
  destruct (std_vector.elems (self v)); split; congruence.
Qed.

Lemma size_zero_elements {T} (v : Vec T) : size v = 0 <-> elements v = [].
Proof.
  rewrite size_elements. destruct (elements v); simpl; split; try done; lia.
Qed.

Lemma is_empty_true_size {T} (v : Vec T) :
  is_empty v = true <-> size v = 0.
Proof. rewrite is_empty_elements, size_zero_elements. reflexivity. Qed.

(** C10: [is_empty()] is true exactly when [size()] is 0. *)
Theorem is_empty_iff_size_zero {T} (v : Vec T) :
  is_empty v = true <-> size v = 0.
Proof.
  split.
  - intros He. apply size_zero_elements, is_empty_elements, He.
  - intros Hs. apply is_empty_elements, size_zero_elements, Hs.
Qed.

Lemma is_empty_false_size {T} (v : Vec T) :
  is_empty v = false <-> 0 < size v.
Proof.
  pose proof (is_empty_true_size v) as E.
  destruct (is_empty v); split; intros Hv; try done.
  - assert (size v = 0) by (apply E; reflexivity). lia.
  - lia.
Qed.

Lemma lookup_in_range {T} (l : list T) (i : Size) :
  i < N.of_nat (length l) -> exists x, l !! N.to_nat i = Some x.
Proof.
  intros Hi. apply lookup_lt_is_Some_2. lia.
Qed.

(** Inside its range [std::vector::at] returns the element and keeps the
    vector. *)
Lemma std_at_in_range {T} (u : Underlying T) (i : Size) (x : T) :
  i < std_vector.size u ->
  std_vector.elems u !! N.to_nat i = Some x ->
  std_vector.at_ i u = Ok (x, u).
Proof.
  intros Hi Hx. unfold std_vector.at_.
  destruct (N.leb_spec (std_vector.size u) i) as [Hle|_]; [lia|].
  rewrite Hx. reflexivity.
Qed.

(** ** Indexed access *)

Lemma at_in_range {T} (v : Vec T) (i : Size) (x : T) :
  i < size v -> elements v !! N.to_nat i = Some x -> at_ i v = Ok (x, v).
Proof.
  intros Hi Hx. unfold at_, bind, gets.
  destruct (N.leb_spec (size v) i) as [Hle|_]; [lia|].
  unfold on_self. rewrite (std_at_in_range (self v) i x Hi Hx).
  destruct v; reflexivity.
Qed.

Lemma subscript_in_range {T} (v : Vec T) (i : Size) (x : T) :
  i < size v -> elements v !! N.to_nat i = Some x ->
  operator_subscript i v = Ok (x, v).
Proof.
  intros Hi Hx. unfold operator_subscript, bind, gets.
  destruct (N.leb_spec (size v) i) as [Hle|_]; [lia|].
  unfold on_self. rewrite (std_at_in_range (self v) i x Hi Hx).
  destruct v; reflexivity.
Qed.

Lemma at_out_of_range {T} (v : Vec T) (i : Size) :
  size v <= i ->
  at_ i v = Throw (error.IndexOutOfBounds
    ("invalid index for vector of size " +:+ to_string (size v) +:+ ".")).
Proof.
  intros Hi. unfold at_, bind, gets, throw.
  destruct (N.leb_spec (size v) i) as [_|Hlt]; [reflexivity|lia].
Qed.

Lemma subscript_out_of_range {T} (v : Vec T) (i : Size) :
  size v <= i ->
  operator_subscript i v = Throw (error.IndexOutOfBounds
    ("index too large for vector of size " +:+ to_string (size v) +:+ ".")).
Proof.
  intros Hi. unfold operator_subscript, bind, gets, throw.
  destruct (N.leb_spec (size v) i) as [_|Hlt]; [reflexivity|lia].
Qed.

(** C1: below [size], [at(i)] and [operator[](i)] return the same element,
    the one at position [i], and raise nothing; from [size] on, [i == size]
    included, both raise [IndexOutOfBounds] (the specification's
    IndexOutOfRange). *)
Theorem at_subscript_contract {T} (v : Vec T) (i : Size) :
  (i < size v ->
     exists x, elements v !! N.to_nat i = Some x
               /\ at_ i v = Ok (x, v)
               /\ operator_subscript i v = Ok (x, v))
  /\ (size v <= i ->
        (exists message, at_ i v = Throw (error.IndexOutOfBounds message))
        /\ (exists message,
              operator_subscript i v = Throw (error.IndexOutOfBounds message))).
Proof.
  split.
  - intros Hi.
    destruct (lookup_in_range (elements v) i) as [x Hx].
    { rewrite <- size_elements. exact Hi. }
    exists x. split; [exact Hx|]. split.
    + apply at_in_range; assumption.
    + apply subscript_in_range; assumption.
  - intros Hi. split; eexists.
    + apply at_out_of_range; assumption.
    + apply subscript_out_of_range; assumption.
Qed.

Lemma at_subscript_contract_witness :
  (exists x, elements (Vec_list [7; 8; 9]%Z) !! N.to_nat 1 = Some x
             /\ at_ 1 (Vec_list [7; 8; 9]%Z) = Ok (x, Vec_list [7; 8; 9]%Z)
             /\ operator_subscript 1 (Vec_list [7; 8; 9]%Z)
                = Ok (x, Vec_list [7; 8; 9]%Z))
  /\ (exists message,
        at_ 3 (Vec_list [7; 8; 9]%Z) = Throw (error.IndexOutOfBounds message))
  /\ (exists message,
        operator_subscript 3 (Vec_list [7; 8; 9]%Z)
        = Throw (error.IndexOutOfBounds message)).
Proof.
  split.
  - apply (proj1 (at_subscript_contract (Vec_list [7; 8; 9]%Z) 1)).
    vm_compute. reflexivity.
  - apply (proj2 (at_subscript_contract (Vec_list [7; 8; 9]%Z) 3)).
    vm_compute. discriminate.
Defined.

(** ** peek_front, peek_back, pop_back, clear *)

Lemma peek_front_empty {T} (v : Vec T) :
  size v = 0 -> peek_front v = Throw (error.NoSuchElement "vector is empty.").
Proof.
  intros Hv. apply is_empty_true_size in Hv.
  unfold peek_front, bind, gets. unfold is_empty in Hv. rewrite Hv.
  reflexivity.
Qed.

Lemma peek_back_empty {T} (v : Vec T) :
  size v = 0 -> peek_back v = Throw (error.NoSuchElement "vector is empty.").
Proof.
  intros Hv. apply is_empty_true_size in Hv.
  unfold peek_back, bind, gets. unfold is_empty in Hv. rewrite Hv.
  reflexivity.
Qed.

Lemma peek_front_nonempty {T} (v : Vec T) :
  0 < size v ->
  exists x, head (elements v) = Some x /\ peek_front v = Ok (x, v).
Proof.
  intros Hv. apply is_empty_false_size in Hv.
  unfold peek_front, bind, gets. unfold is_empty in Hv. rewrite Hv.
  unfold on_self, std_vector.front, elements.
  destruct v as [[l c]]; simpl in *.
  destruct l as [|x l]; [discriminate|]. exists x. split; reflexivity.
Qed.

Lemma peek_back_nonempty {T} (v : Vec T) :
  0 < size v ->
  exists x, last (elements v) = Some x /\ peek_back v = Ok (x, v).
Proof.
  intros Hv. apply is_empty_false_size in Hv.
  unfold peek_back, bind, gets. unfold is_empty in Hv. rewrite Hv.
  unfold on_self, std_vector.back, elements.
  destruct v as [[l c]]; simpl in *.
  destruct (last l) as [x|] eqn:Hl.
  - exists x. split; reflexivity.
  - apply last_None in Hl. subst l. discriminate.
Qed.

(** C3: on an empty container [peek_front()] and [peek_back()] raise
    [NoSuchElement]; on a non-empty one they return the first and the last
    element and leave the container, hence its size, as it was.  So they
    raise exactly when the container is empty. *)
Theorem peek_contract {T} (v : Vec T) :
  (size v = 0 ->
     peek_front v = Throw (error.NoSuchElement "vector is empty.")
     /\ peek_back v = Throw (error.NoSuchElement "vector is empty."))
  /\ (0 < size v ->
        exists first last_,
          head (elements v) = Some first
          /\ last (elements v) = Some last_
          /\ peek_front v = Ok (first, v)
          /\ peek_back v = Ok (last_, v))
  /\ ((exists e, peek_front v = Throw e) <-> size v = 0)
  /\ ((exists e, peek_back v = Throw e) <-> size v = 0).
Proof.
  assert (Hcases : size v = 0 \/ 0 < size v) by lia.
  split; [|split; [|split]].
  - intros Hv. split; [apply peek_front_empty|apply peek_back_empty]; exact Hv.
  - intros Hv.
    destruct (peek_front_nonempty v Hv) as (x & Hx & Hf).
    destruct (peek_back_nonempty v Hv) as (y & Hy & Hb).
    exists x, y. auto.
  - split.
    + intros [e He]. destruct Hcases as [Hz|Hpos]; [exact Hz|].
      destruct (peek_front_nonempty v Hpos) as (x & _ & Hf). congruence.
    + intros Hv. eexists. apply peek_front_empty, Hv.
  - split.
    + intros [e He]. destruct Hcases as [Hz|Hpos]; [exact Hz|].
      destruct (peek_back_nonempty v Hpos) as (x & _ & Hb). congruence.
    + intros Hv. eexists. apply peek_back_empty, Hv.
Qed.

Lemma peek_contract_witness :
  (peek_front (Vec_default : Vec int)
     = Throw (error.NoSuchElement "vector is empty.")
   /\ peek_back (Vec_default : Vec int)
      = Throw (error.NoSuchElement "vector is empty."))
  /\ (exists first last_,
        head (elements (Vec_list [7; 8; 9]%Z)) = Some first
        /\ last (elements (Vec_list [7; 8; 9]%Z)) = Some last_
        /\ peek_front (Vec_list [7; 8; 9]%Z) = Ok (first, Vec_list [7; 8; 9]%Z)
        /\ peek_back (Vec_list [7; 8; 9]%Z) = Ok (last_, Vec_list [7; 8; 9]%Z)).
Proof.
  split.
  - apply (proj1 (peek_contract (Vec_default : Vec int))). reflexivity.
  - apply (proj1 (proj2 (peek_contract (Vec_list [7; 8; 9]%Z)))).
    vm_compute. reflexivity.
Defined.

Lemma length_removelast {T} (l : list T) :
  length (removelast l) = Nat.pred (length l).
Proof.
  induction l as [|x l IH]; [reflexivity|].
  destruct l as [|y l]; [reflexivity|].
  change (removelast (x :: y :: l)) with (x :: removelast (y :: l)).
  simpl length in *. rewrite IH. reflexivity.
Qed.

Lemma pop_back_empty {T} (v : Vec T) :
  size v = 0 -> pop_back v = Ok (None, v).
Proof.
  intros Hv. apply is_empty_true_size in Hv.
  unfold pop_back, bind, gets. rewrite Hv. reflexivity.
Qed.

Lemma pop_back_nonempty {T} (v : Vec T) :
  0 < size v ->
  exists x,
    last (elements v) = Some x
    /\ pop_back v
       = Ok (Some x,
             mkVec (std_vector.mk (removelast (elements v)) (cap v))).
Proof.
  intros Hv.
  destruct (peek_back_nonempty v Hv) as (x & Hx & Hpeek).
  apply is_empty_false_size in Hv.
  exists x. split; [exact Hx|].
  unfold pop_back, bind, gets. rewrite Hv, Hpeek.
  unfold on_self, std_vector.pop_back, ret, elements, cap.
  destruct v as [[l c]]; simpl in *.
  destruct l as [|y l]; [discriminate|reflexivity].
Qed.

(** C4: [pop_back()] raises nothing.  On an empty container it returns no
    value and the size stays 0; on a container of size [n > 0] it returns
    the former last element by value and leaves the elements before it, so
    the size is [n - 1]. *)
Theorem pop_back_contract {T} (v : Vec T) :
  (forall e, pop_back v <> Throw e)
  /\ (size v = 0 ->
        exists v', pop_back v = Ok (None, v') /\ size v' = 0)
  /\ (forall n, size v = n -> 0 < n ->
        exists x v',
          last (elements v) = Some x
          /\ pop_back v = Ok (Some x, v')
          /\ elements v' = removelast (elements v)
          /\ size v' = n - 1).
Proof.
  assert (Hcases : size v = 0 \/ 0 < size v) by lia.
  split; [|split].
  - intros e He. destruct Hcases as [Hz|Hpos].
    + rewrite (pop_back_empty v Hz) in He. discriminate.
    + destruct (pop_back_nonempty v Hpos) as (x & _ & Hp).
      rewrite Hp in He. discriminate.
  - intros Hz. exists v. split; [apply pop_back_empty|]; exact Hz.
  - intros n Hn Hpos. subst n.
    destruct (pop_back_nonempty v Hpos) as (x & Hx & Hp).
    eexists x, _. split; [exact Hx|]. split; [exact Hp|].
    split; [reflexivity|].
    rewrite !size_elements. unfold elements at 1. simpl.
    rewrite length_removelast. lia.
Qed.

Lemma pop_back_contract_witness :
  (exists v', pop_back (Vec_default : Vec int) = Ok (None, v') /\ size v' = 0)
  /\ (exists x v',
        last (elements (Vec_list [7; 8; 9]%Z)) = Some x
        /\ pop_back (Vec_list [7; 8; 9]%Z) = Ok (Some x, v')
        /\ elements v' = removelast (elements (Vec_list [7; 8; 9]%Z))
        /\ size v' = 3 - 1).
Proof.
  split.
  - apply (proj1 (proj2 (pop_back_contract (Vec_default : Vec int)))).
    reflexivity.
  - apply (proj2 (proj2 (pop_back_contract (Vec_list [7; 8; 9]%Z))) 3).
    + reflexivity.
    + lia.
Defined.

(** C8: [clear()] leaves size 0 and the capacity it found. *)
Theorem clear_contract {T} (v : Vec T) :
  exists v', clear v = Ok (tt, v') /\ size v' = 0 /\ cap v' = cap v.
Proof.
  eexists. split; [reflexivity|]. split; reflexivity.
Qed.

(** ** with *)

Lemma Size_pred_spec (i : Size) :
  1 <= i -> i < Size_modulus -> Size_pred i = i - 1.
Proof.
  intros H1 H2. unfold Size_pred.
  replace (i + (Size_modulus - 1)) with (i - 1 + 1 * Size_modulus).
  - rewrite N.Div0.mod_add. apply N.mod_small. lia.
  - unfold Size_modulus in *. lia.
Qed.

Lemma Size_succ_spec (i : Size) :
  i + 1 < Size_modulus -> Size_succ i = i + 1.
Proof. intros Hi. unfold Size_succ. apply N.mod_small. exact Hi. Qed.

Section WithProperties.
Context {T : Type} `{numeric_limits T}.
Implicit Types (v : Vec T) (pat : pattern.Pattern T).

(** One round of the loop: the test holds, element [i - 1] is read and
    element [i] is overwritten. *)
Lemma with_loop_step fuel pat i v prev :
  1 <= i -> i < size v -> size v < Size_modulus ->
  elements v !! N.to_nat (i - 1) = Some prev ->
  with_loop (S fuel) pat i v
  = with_loop fuel pat (i + 1)
      (mkVec (std_vector.mk (<[N.to_nat i := pat prev]> (elements v)) (cap v))).
Proof.
  intros H1 Hi Hsz Hprev. simpl. unfold bind at 1. unfold gets.
  destruct (N.ltb_spec i (size v)) as [_|Hge]; [|lia].
  rewrite Size_pred_spec by lia.
  rewrite Size_succ_spec by lia.
  unfold bind, on_self, std_vector.index, std_vector.assign_index.
  unfold elements in Hprev. rewrite Hprev. simpl.
  change (std_vector.size (self v)) with (size v).
  destruct (N.ltb_spec i (size v)) as [_|Hge]; [|lia].
  reflexivity.
Qed.

Lemma with_loop_exit fuel pat i v :
  size v <= i -> with_loop (S fuel) pat i v = Ok (tt, v).
Proof.
  intros Hi. simpl. unfold bind, gets.
  destruct (N.ltb_spec i (size v)) as [Hlt|_]; [lia|reflexivity].
Qed.

(** The loop from [i] on, given enough rounds: it ends, the elements
    before [i] are untouched and each element from [i] on is the pattern
    applied to its (updated) predecessor. *)
Lemma with_loop_invariant pat fuel : forall i v,
  1 <= i -> size v < Size_modulus ->
  (N.to_nat (size v - i) < fuel)%nat ->
  exists v',
    with_loop fuel pat i v = Ok (tt, v')
    /\ length (elements v') = length (elements v)
    /\ cap v' = cap v
    /\ (forall j, (j < N.to_nat i)%nat -> elements v' !! j = elements v !! j)
    /\ (forall j, (N.to_nat i <= j < length (elements v))%nat ->
          elements v' !! j = pat <$> elements v' !! (j - 1)%nat).
Proof.
  induction fuel as [|fuel IH]; intros i v H1 Hsz Hfuel; [lia|].
  destruct (N.lt_ge_cases i (size v)) as [Hi|Hi].
  - destruct (lookup_in_range (elements v) (i - 1)) as [prev Hprev].
    { rewrite <- size_elements. lia. }
    rewrite (with_loop_step fuel pat i v prev H1 Hi Hsz Hprev).
    set (v1 := mkVec (std_vector.mk
                        (<[N.to_nat i := pat prev]> (elements v)) (cap v))).
    assert (Hlen1 : length (elements v1) = length (elements v))
      by apply length_insert.
    assert (Hsz1 : size v1 = size v) by (rewrite !size_elements; lia).
    destruct (IH (i + 1) v1) as (v' & Hrun & Hlen & Hcap & Hlow & Hhigh).
    { lia. } { lia. } { lia. }
    exists v'. split; [exact Hrun|]. split; [lia|]. split; [exact Hcap|].
    assert (Hi_lt : (N.to_nat i < length (elements v))%nat).
    { rewrite size_elements in Hi. lia. }
    split.
    + intros j Hj. rewrite Hlow by lia.
      apply list_lookup_insert_ne. lia.
    + intros j Hj.
      destruct (decide (j = N.to_nat i)) as [->|Hne].
      * rewrite !Hlow by lia.
        change (elements v1) with (<[N.to_nat i := pat prev]> (elements v)).
        rewrite list_lookup_insert_eq by lia.
        rewrite list_lookup_insert_ne by lia.
        replace (N.to_nat i - 1)%nat with (N.to_nat (i - 1)) by lia.
        rewrite Hprev. reflexivity.
      * apply Hhigh. lia.
  - rewrite (with_loop_exit fuel pat i v Hi).
    exists v. split; [reflexivity|]. split; [reflexivity|].
    split; [reflexivity|]. split; [reflexivity|].
    intros j Hj. rewrite size_elements in Hi. lia.
Qed.

(** Any budget of at least one test per element (and one at all) gives
    the same run. *)
Lemma with_fuel_enough pat fuel v :
  is_integer T = true -> size v < Size_modulus ->
  (N.to_nat (size v) <= fuel)%nat -> (1 <= fuel)%nat ->
  exists v',
    with_fuel fuel pat v = Ok (Vec_copy v', v')
    /\ length (elements v') = length (elements v)
    /\ cap v' = cap v
    /\ elements v' !! 0%nat = elements v !! 0%nat
    /\ (forall j, (1 <= j < length (elements v))%nat ->
          elements v' !! j = pat <$> elements v' !! (j - 1)%nat).
Proof.
  intros Hint Hsz Hfuel Hpos.
  destruct (with_loop_invariant pat fuel 1 v) as (v' & Hrun & Hlen & Hcap & Hlow & Hhigh).
  { lia. } { exact Hsz. } { lia. }
  exists v'. split.
  - unfold with_fuel. rewrite Hint. unfold bind. rewrite Hrun. reflexivity.
  - split; [exact Hlen|]. split; [exact Hcap|]. split.
    + apply Hlow. lia.
    + intros j Hj. apply Hhigh. lia.
Qed.
End WithProperties.

(** C5: on a container of integer element type, whose size is a [Size],
    [with(pat)] returns normally, changes the container in place and
    returns it (by value): the size is kept, element 0 is kept, and each
    element [i] from 1 to [size - 1] is [pat] applied to the updated
    element [i - 1]. *)
Theorem with_contract {T} `{numeric_limits T}
    (pat : pattern.Pattern T) (v : Vec T) :
  is_integer T = true ->
  size v < Size_modulus ->
  exists result v',
    with_ pat v = Ok (result, v')
    /\ elements result = elements v'
    /\ size v' = size v
    /\ elements v' !! 0%nat = elements v !! 0%nat
    /\ (forall i : Size, 1 <= i -> i < size v ->
          elements v' !! N.to_nat i
          = pat <$> elements v' !! N.to_nat (i - 1)).
Proof.
  intros Hint Hsz.
  destruct (with_fuel_enough pat (S (length (elements v))) v Hint Hsz)
    as (v' & Hrun & Hlen & _ & H0 & Hrec).
  { rewrite size_elements. lia. } { lia. }
  exists (Vec_copy v'), v'. split; [exact Hrun|]. split; [reflexivity|].
  split; [rewrite !size_elements; lia|]. split; [exact H0|].
  intros i H1 Hi. rewrite size_elements in Hi.
  rewrite Hrec by lia. do 2 f_equal. lia.
Qed.

Lemma with_contract_witness :
  exists result v',
    with_ (pattern.Incr 1%Z) (of_ 4 1%Z : Vec int) = Ok (result, v')
    /\ elements result = elements v'
    /\ size v' = size (of_ 4 1%Z : Vec int)
    /\ elements v' !! 0%nat = elements (of_ 4 1%Z : Vec int) !! 0%nat
    /\ (forall i : Size, 1 <= i -> i < size (of_ 4 1%Z : Vec int) ->
          elements v' !! N.to_nat i
          = pattern.Incr 1%Z <$> elements v' !! N.to_nat (i - 1)).
Proof.
  apply (with_contract (pattern.Incr 1%Z) (of_ 4 1%Z : Vec int)).
  - reflexivity.
  - vm_compute. reflexivity.
Defined.

(** C6: [of(4, 1).with(Mult<int, 5>)] is [[1, 5, 25, 125]], both as the
    container after the call and as the value returned. *)
Theorem of_with_Mult_5 :
  exists result v',
    with_ (pattern.Mult 5%Z) (of_ 4 1%Z : Vec int) = Ok (result, v')
    /\ elements result = [1; 5; 25; 125]%Z
    /\ elements v' = [1; 5; 25; 125]%Z.
Proof.
  eexists _, _. split; [vm_compute; reflexivity|]. split; reflexivity.
Qed.

(** ** from over a range *)

Lemma IsValidIterator_constructible {R T} (it : vector.Iterator R T) :
  vector.IsValidIterator it = true ->
  exists emplace, vector.construct it = Some emplace.
Proof.
  unfold vector.IsValidIterator, vector.IsForwardIterator,
    vector.IsInputIterator, vector.is_constructible.
  destruct (vector.construct it) as [f|]; [eauto|].
  rewrite !andb_false_r. discriminate.
Qed.

Lemma Forall2_map_preserved {R T} (same : R -> T -> Prop) (f : R -> T)
    (range : list R) :
  (forall x, In x range -> same x (f x)) -> Forall2 same range (map f range).
Proof.
  induction range as [|x range IH]; intros Hsame; simpl.
  - constructor.
  - constructor.
    + apply Hsame. left. reflexivity.
    + apply IH. intros y Hy. apply Hsame. right. exact Hy.
Qed.

(** C7, as the code has it: for a range of length [k] whose iterator
    satisfies [IsValidIterator], [from] gives a container of size [k]
    whose element at each position is the [T] constructed from the source
    element there, in the same order; under any notion [same] of a source
    value and a [T] being equal that the construction respects on the
    range, the elements are the source elements. *)
Theorem from_range_contract {R T} (it : vector.Iterator R T) (range : list R) :
  vector.IsValidIterator it = true ->
  exists emplace v,
    vector.construct it = Some emplace
    /\ from it range = Ok v
    /\ size v = N.of_nat (length range)
    /\ elements v = map emplace range
    /\ (forall j x, range !! j = Some x -> elements v !! j = Some (emplace x))
    /\ (forall same : R -> T -> Prop,
          (forall x, In x range -> same x (emplace x)) ->
          Forall2 same range (elements v)).
Proof.
  intros Hreq.
  destruct (IsValidIterator_constructible it Hreq) as [emplace Hc].
  exists emplace, (mkVec (vector_range emplace range)).
  split; [exact Hc|]. split.
  - unfold from. rewrite Hreq, Hc. reflexivity.
  - split.
    + rewrite size_elements. unfold elements. simpl.
      rewrite length_map. reflexivity.
    + split; [reflexivity|]. split.
      * intros j x Hx. unfold elements. simpl.
        change (map emplace range) with (emplace <$> range).
        rewrite list_lookup_fmap, Hx. reflexivity.
      * intros same Hsame. unfold elements. simpl.
        apply Forall2_map_preserved. exact Hsame.
Qed.

Lemma from_range_contract_witness :
  exists emplace v,
    vector.construct int_pointer = Some emplace
    /\ from int_pointer [1; 2; 3; 4; 5]%Z = Ok v
    /\ size v = N.of_nat (length [1; 2; 3; 4; 5]%Z)
    /\ elements v = map emplace [1; 2; 3; 4; 5]%Z
    /\ (forall j x, [1; 2; 3; 4; 5]%Z !! j = Some x ->
          elements v !! j = Some (emplace x))
    /\ (forall same : int -> int -> Prop,
          (forall x, In x [1; 2; 3; 4; 5]%Z -> same x (emplace x)) ->
          Forall2 same [1; 2; 3; 4; 5]%Z (elements v)).
Proof.
  apply (from_range_contract int_pointer [1; 2; 3; 4; 5]%Z).
  reflexivity.
Defined.

(** When the source yields [T] itself and construction is a copy, the
    elements are the source elements. *)
Lemma from_range_copy (range : list int) :
  exists v, from int_pointer range = Ok v /\ elements v = range.
Proof.
  eexists. split; [reflexivity|].
  unfold elements. simpl. apply map_id.
Qed.

(** C7 as stated fails: an [int*] satisfies [IsValidIterator] for
    [unsigned char], and [from] over the one-element range [[300]] gives a
    [Vec<unsigned char>] of size 1 whose element is 44, not 300. *)
Lemma from_range_elements_differ :
  vector.IsValidIterator int_pointer_to_unsigned_char = true
  /\ exists v,
       from int_pointer_to_unsigned_char [300%Z] = Ok v
       /\ size v = 1
       /\ elements v = [44%Z]
       /\ elements v <> [300%Z].
Proof.
  split; [reflexivity|].
  eexists. split; [reflexivity|]. split; [reflexivity|].
  split; [reflexivity|]. discriminate.
Qed.

(** ** swap *)

(** C2 at [a = [1, 2]], [b = [3]]: the call [a.swap(b)] does not compile,
    so nothing is exchanged. *)
Lemma swap_no_viable_call :
  swap (Vec_list [1; 2]%Z, Vec_list [3%Z]) = Rejected.
Proof. reflexivity. Qed.

(** ** Rendering *)

Lemma string_app_assoc (s1 s2 s3 : string) :
  (s1 +:+ s2) +:+ s3 = s1 +:+ (s2 +:+ s3).
Proof.
  induction s1 as [|a s1 IH]; [reflexivity|].
  change (String a ((s1 +:+ s2) +:+ s3) = String a (s1 +:+ s2 +:+ s3)).
  f_equal. exact IH.
Qed.

Lemma string_app_empty_r (s : string) : s +:+ "" = s.
Proof.
  induction s as [|a s IH]; [reflexivity|].
  change (String a (s +:+ "") = String a s). f_equal. exact IH.
Qed.

Section Rendering.
Context {T : Type} `{Insertable T}.

(** The loop appends the elements' texts, [", "] between neighbours. *)
Lemma print_loop_concat (iter : list T) : forall os : ostream,
  print_loop os iter = os +:+ String.concat ", " (map put iter).
Proof.
  induction iter as [|x next IH]; intros os.
  - simpl. symmetry. apply string_app_empty_r.
  - destruct next as [|y next].
    + reflexivity.
    + change (print_loop os (x :: y :: next))
        with (print_loop ((os +:+ put x) +:+ ", ") (y :: next)).
      rewrite IH.
      change (String.concat ", " (map put (x :: y :: next)))
        with (put x +:+ ", " +:+ String.concat ", " (map put (y :: next))).
      rewrite !string_app_assoc. reflexivity.
Qed.

(** C9: written to a stream, a container adds ["[e0, e1, ..., eN-1]"], the
    elements' texts joined by [", "] and nothing after the last; an empty
    container adds ["[]"]. *)
Theorem rendering_contract (os : ostream) (vec : Vec T) :
  operator_ltlt os vec = os +:+ rendering_spec (elements vec)
  /\ (size vec = 0 -> operator_ltlt "" vec = "[]").
Proof.
  assert (Hgen : forall os', operator_ltlt os' vec
                             = os' +:+ rendering_spec (elements vec)).
  { intros os'. unfold operator_ltlt, rendering_spec.
    rewrite print_loop_concat, !string_app_assoc. reflexivity. }
  split; [apply Hgen|].
  intros Hv. apply size_zero_elements in Hv.
  rewrite Hgen, Hv. reflexivity.
Qed.
End Rendering.

Lemma rendering_contract_witness :
  operator_ltlt "" (Vec_default : Vec int) = "[]".
Proof.
  apply (proj2 (rendering_contract "" (Vec_default : Vec int))).
  reflexivity.
Defined.

Example with_string_rejected :
  with_ (fun s : string => s) (Vec_list ["a"; "b"]) = Rejected.
Proof. reflexivity. Qed.

Example with_Decr_default :
  with_ (pattern.Decr 1%Z) (of_ 3 100%Z : Vec int)
  = Ok (Vec_list [100; 99; 98]%Z, Vec_list [100; 99; 98]%Z).
Proof. vm_compute. reflexivity. Qed.

Example rendering_of_4_1 : operator_ltlt "" (of_ 4 1%Z : Vec int) = "[1, 1, 1, 1]".
Proof. vm_compute. reflexivity. Qed.

Example rendering_one : operator_ltlt "v = " (Vec_list [42%Z]) = "v = [42]".
Proof. vm_compute. reflexivity. Qed.

(** * Further properties of the header *)

(** ** The iterator concepts *)

(** X1: no iterator type is in both tiers, so a valid iterator is in
    exactly one of them. *)
Theorem iterator_tiers_exclusive {R T} (it : vector.Iterator R T) :
  vector.IsInputIterator it && vector.IsForwardIterator it = false
  /\ vector.IsValidIterator it
     = xorb (vector.IsInputIterator it) (vector.IsForwardIterator it).
Proof.
  unfold vector.IsValidIterator, vector.IsInputIterator,
    vector.IsForwardIterator.
  destruct (vector.is_cpp17_input_iterator it),
    (vector.is_cpp17_forward_iterator it), (vector.is_constructible it);
    split; reflexivity.
Qed.



(** ** More on with and the patterns *)

Section WithIterates.
Context {T : Type} `{numeric_limits T}.
Implicit Types (v : Vec T) (pat : pattern.Pattern T).

(** A list that starts like [l] and whose every later element is [pat] of
    the one before holds the iterates of [pat] on the first element. *)
Lemma recurrence_iterates pat (l l' : list T) :
  length l' = length l ->
  l' !! 0%nat = l !! 0%nat ->
  (forall j, (1 <= j < length l)%nat ->
     l' !! j = pat <$> l' !! (j - 1)%nat) ->
  forall j, (j < length l)%nat ->
    l' !! j = Nat.iter j pat <$> l !! 0%nat.
Proof.
  intros Hlen H0 Hrec j. induction j as [|j IH]; intros Hj.
  - rewrite H0. destruct (l !! 0%nat); reflexivity.
  - rewrite Hrec by lia.
    replace (S j - 1)%nat with j by lia.
    rewrite IH by lia. destruct (l !! 0%nat); reflexivity.
Qed.

(** The run of [with]: what it returns and what it leaves. *)
Lemma with_run pat v :
  is_integer T = true -> size v < Size_modulus ->
  exists v',
    with_ pat v = Ok (Vec_copy v', v')
    /\ length (elements v') = length (elements v)
    /\ cap v' = cap v
    /\ (forall j, (j < length (elements v))%nat ->
          elements v' !! j = Nat.iter j pat <$> elements v !! 0%nat).
Proof.
  intros Hint Hsz.
  destruct (with_fuel_enough pat (S (length (elements v))) v Hint Hsz)
    as (v' & Hrun & Hlen & Hcap & H0 & Hrec).
  { rewrite size_elements. lia. } { lia. }
  exists v'. split; [exact Hrun|]. split; [exact Hlen|].
  split; [exact Hcap|].
  apply recurrence_iterates; assumption.
Qed.
End WithIterates.

Lemma Vec_eq {T} (v w : Vec T) :
  elements v = elements w -> cap v = cap w -> v = w.
Proof.
  destruct v as [[l c]], w as [[l' c']]. unfold elements, cap. simpl.
  intros -> ->. reflexivity.
Qed.

(** X4: after [with(pat)] element [j] is [pat] applied [j] times to the
    element that was first; nothing else of the old contents is read. *)
Theorem with_iterates {T} `{numeric_limits T}
    (pat : pattern.Pattern T) (v : Vec T) (first : T) :
  is_integer T = true ->
  size v < Size_modulus ->
  elements v !! 0%nat = Some first ->
  exists result v',
    with_ pat v = Ok (result, v')
    /\ elements result = elements v'
    /\ size v' = size v
    /\ (forall j : Size, j < size v ->
          elements v' !! N.to_nat j = Some (Nat.iter (N.to_nat j) pat first)).
Proof.
  intros Hint Hsz Hfirst.
  destruct (with_run pat v Hint Hsz) as (v' & Hrun & Hlen & _ & Hit).
  exists (Vec_copy v'), v'. split; [exact Hrun|]. split; [reflexivity|].
  split; [rewrite !size_elements; lia|].
  intros j Hj. rewrite size_elements in Hj.
  rewrite Hit by lia. rewrite Hfirst. reflexivity.
Qed.

Lemma with_iterates_witness :
  exists result v',
    with_ (pattern.Mult 2%Z) (of_ 5 3%Z : Vec int) = Ok (result, v')
    /\ elements result = elements v'
    /\ size v' = size (of_ 5 3%Z : Vec int)
    /\ (forall j : Size, j < size (of_ 5 3%Z : Vec int) ->
          elements v' !! N.to_nat j
          = Some (Nat.iter (N.to_nat j) (pattern.Mult 2%Z) 3%Z)).
Proof.
  apply (with_iterates (pattern.Mult 2%Z) (of_ 5 3%Z : Vec int) 3%Z).
  - reflexivity.
  - vm_compute. reflexivity.
  - reflexivity.
Defined.

(** X5: on a container with no element or with one, [with(pat)] changes
    nothing. *)
Theorem with_short_unchanged {T} `{numeric_limits T}
    (pat : pattern.Pattern T) (v : Vec T) :
  is_integer T = true ->
  size v <= 1 ->
  exists result, with_ pat v = Ok (result, v) /\ elements result = elements v.
Proof.
  intros Hint Hsz.
  assert (Hmod : size v < Size_modulus) by (unfold Size_modulus; lia).
  destruct (with_run pat v Hint Hmod) as (v' & Hrun & Hlen & Hcap & Hit).
  assert (Hv : v' = v).
  { apply Vec_eq; [|exact Hcap].
    apply list_eq. intros j.
    destruct (decide (j < length (elements v))%nat) as [Hj|Hj].
    - rewrite Hit by exact Hj. rewrite size_elements in Hsz.
      assert (j = 0%nat) as -> by lia.
      destruct (elements v !! 0%nat); reflexivity.
    - rewrite !lookup_ge_None_2 by lia. reflexivity. }
  subst v'. exists (Vec_copy v). split; [exact Hrun|reflexivity].
Qed.

Lemma with_short_unchanged_witness :
  exists result,
    with_ (pattern.Incr 1%Z) (Vec_list [7%Z]) = Ok (result, Vec_list [7%Z])
    /\ elements result = elements (Vec_list [7%Z]).
Proof.
  apply (with_short_unchanged (pattern.Incr 1%Z) (Vec_list [7%Z])).
  - reflexivity.
  - vm_compute. discriminate.
Defined.

(** X6: [with(pat)] a second time changes nothing: the container already
    follows the pattern from its first element. *)
Theorem with_idempotent {T} `{numeric_limits T}
    (pat : pattern.Pattern T) (v : Vec T) :
  is_integer T = true ->
  size v < Size_modulus ->
  exists result v',
    with_ pat v = Ok (result, v')
    /\ with_ pat v' = Ok (result, v').
Proof.
  intros Hint Hsz.
  destruct (with_run pat v Hint Hsz) as (v' & Hrun & Hlen & Hcap & Hit).
  assert (Hsz' : size v' < Size_modulus) by (rewrite !size_elements in *; lia).
  destruct (with_run pat v' Hint Hsz') as (v'' & Hrun' & Hlen' & Hcap' & Hit').
  assert (Hv : v'' = v').
  { apply Vec_eq; [|exact Hcap'].
    apply list_eq. intros j.
    destruct (decide (j < length (elements v'))%nat) as [Hj|Hj].
    - rewrite Hit' by exact Hj. rewrite (Hit j) by lia.
      rewrite (Hit 0%nat) by lia. simpl.
      destruct (elements v !! 0%nat); reflexivity.
    - rewrite !lookup_ge_None_2 by lia. reflexivity. }
  subst v''. exists (Vec_copy v'), v'. split; assumption.
Qed.

Lemma with_idempotent_witness :
  exists result v',
    with_ (pattern.Mult 5%Z) (of_ 4 1%Z : Vec int) = Ok (result, v')
    /\ with_ (pattern.Mult 5%Z) v' = Ok (result, v').
Proof.
  apply (with_idempotent (pattern.Mult 5%Z) (of_ 4 1%Z : Vec int)).
  - reflexivity.
  - vm_compute. reflexivity.
Defined.

(** *** The three patterns on int *)

Lemma int_wrap_range (z : Z) : int_range (int_wrap z).
Proof.
  unfold int_range, int_wrap.
  pose proof (Z.mod_pos_bound (z + 2 ^ 31) (2 ^ 32)) as Hb. lia.
Qed.

Lemma int_wrap_id (z : Z) : int_range z -> int_wrap z = z.
Proof.
  unfold int_range, int_wrap. intros Hz.
  rewrite Z.mod_small by lia. lia.
Qed.

Lemma int_wrap_plus (a b : Z) : int_wrap (int_wrap a + b) = int_wrap (a + b).
Proof.
  unfold int_wrap. f_equal.
  replace ((a + 2 ^ 31) mod 2 ^ 32 - 2 ^ 31 + b + 2 ^ 31)%Z
    with ((a + 2 ^ 31) mod 2 ^ 32 + b)%Z by lia.
  rewrite Zplus_mod_idemp_l. f_equal. lia.
Qed.

Lemma int_wrap_minus (a b : Z) : int_wrap (int_wrap a - b) = int_wrap (a - b).
Proof.
  replace (int_wrap a - b)%Z with (int_wrap a + - b)%Z by lia.
  rewrite int_wrap_plus. f_equal; lia.
Qed.

Lemma int_wrap_times (a b : Z) : int_wrap (int_wrap a * b) = int_wrap (a * b).
Proof.
  unfold int_wrap. f_equal.
  rewrite <- (Zplus_mod_idemp_l (((a + 2 ^ 31) mod 2 ^ 32 - 2 ^ 31) * b)).
  rewrite <- (Zmult_mod_idemp_l ((a + 2 ^ 31) mod 2 ^ 32 - 2 ^ 31)).
  rewrite Zminus_mod_idemp_l.
  rewrite Zmult_mod_idemp_l, Zplus_mod_idemp_l.
  f_equal. lia.
Qed.

Lemma iter_Incr (by_ first : Z) (j : nat) :
  int_range first ->
  Nat.iter j (pattern.Incr by_) first = int_wrap (first + Z.of_nat j * by_).
Proof.
  intros Hf. induction j as [|j IH].
  - simpl. rewrite Z.add_0_r. symmetry. apply int_wrap_id, Hf.
  - change (Nat.iter (S j) (pattern.Incr by_) first)
      with (int_wrap (Nat.iter j (pattern.Incr by_) first + by_)).
    rewrite IH, int_wrap_plus. f_equal. lia.
Qed.

Lemma iter_Decr (by_ first : Z) (j : nat) :
  int_range first ->
  Nat.iter j (pattern.Decr by_) first = int_wrap (first - Z.of_nat j * by_).
Proof.
  intros Hf. induction j as [|j IH].
  - simpl. rewrite Z.sub_0_r. symmetry. apply int_wrap_id, Hf.
  - change (Nat.iter (S j) (pattern.Decr by_) first)
      with (int_wrap (Nat.iter j (pattern.Decr by_) first - by_)).
    rewrite IH, int_wrap_minus. f_equal. lia.
Qed.

Lemma iter_Mult (by_ first : Z) (j : nat) :
  int_range first ->
  Nat.iter j (pattern.Mult by_) first = int_wrap (first * by_ ^ Z.of_nat j).
Proof.
  intros Hf. induction j as [|j IH].
  - simpl. rewrite Z.mul_1_r. symmetry. apply int_wrap_id, Hf.
  - change (Nat.iter (S j) (pattern.Mult by_) first)
      with (int_wrap (Nat.iter j (pattern.Mult by_) first * by_)).
    rewrite IH, int_wrap_times. f_equal.
    rewrite Nat2Z.inj_succ, Z.pow_succ_r by lia. lia.
Qed.

(** The elements [with] leaves in a [Vec<int>], by the iterates. *)
Lemma with_int_elements (pat : pattern.Pattern int) (v : Vec int) (first : int) :
  size v < Size_modulus ->
  elements v !! 0%nat = Some first ->
  exists v',
    with_ pat v = Ok (Vec_copy v', v')
    /\ size v' = size v
    /\ (forall j : Size, j < size v ->
          elements v' !! N.to_nat j = Some (Nat.iter (N.to_nat j) pat first)).
Proof.
  intros Hsz Hfirst.
  destruct (@with_run int numeric_limits_int pat v eq_refl Hsz) as (v' & Hrun & Hlen & _ & Hit).
  exists v'. split; [exact Hrun|].
  split; [rewrite !size_elements; lia|].
  intros j Hj. rewrite size_elements in Hj.
  rewrite Hit by lia. rewrite Hfirst. reflexivity.
Qed.









(** ** The modifiers *)

Lemma grow_needed (c needed : Size) : needed <= std_vector.grow c needed.
Proof.
  unfold std_vector.grow. destruct (N.leb_spec needed c); lia.
Qed.

Lemma grow_keeps (c needed : Size) : c <= std_vector.grow c needed.
Proof.
  unfold std_vector.grow. destruct (N.leb_spec needed c); lia.
Qed.

Lemma grow_enough (c needed : Size) :
  needed <= c -> std_vector.grow c needed = c.
Proof.
  intros Hn. unfold std_vector.grow.
  destruct (N.leb_spec needed c); [reflexivity|lia].
Qed.

Section ModifierRuns.
Context {T : Type}.
Implicit Types (v : Vec T) (x : T) (pos : Size).

Lemma push_back_run x v :
  push_back x v
  = Ok (tt, mkVec (std_vector.mk (elements v ++ [x])
                     (std_vector.grow (cap v) (size v + 1)))).
Proof. reflexivity. Qed.

Lemma insert_run_ok pos (run : list T) v :
  pos <= size v ->
  on_self (std_vector.insert_run pos run) v
  = Ok (pos,
        mkVec (std_vector.mk
                 (take (N.to_nat pos) (elements v) ++ run
                  ++ drop (N.to_nat pos) (elements v))
                 (std_vector.grow (cap v)
                    (size v + N.of_nat (length run))))).
Proof.
  intros Hp. unfold on_self, std_vector.insert_run.
  change (std_vector.size (self v)) with (size v).
  destruct (N.leb_spec pos (size v)); [reflexivity|lia].
Qed.

Lemma remove_run pos v :
  pos < size v ->
  remove pos v
  = Ok (pos, mkVec (std_vector.mk (delete (N.to_nat pos) (elements v)) (cap v))).
Proof.
  intros Hp. unfold remove, on_self, std_vector.erase.
  change (std_vector.size (self v)) with (size v).
  destruct (N.ltb_spec pos (size v)); [reflexivity|lia].
Qed.

Lemma remove_range_run (first last_ : Size) v :
  first <= last_ -> last_ <= size v ->
  remove_range first last_ v
  = Ok (first,
        mkVec (std_vector.mk
                 (take (N.to_nat first) (elements v)
                  ++ drop (N.to_nat last_) (elements v))
                 (cap v))).
Proof.
  intros Hf Hl. unfold remove_range, on_self, std_vector.erase_range.
  change (std_vector.size (self v)) with (size v).
  destruct (N.leb_spec first last_); [|lia].
  destruct (N.leb_spec last_ (size v)); [reflexivity|lia].
Qed.

Lemma at_lookup v (i : Size) x :
  elements v !! N.to_nat i = Some x -> at_ i v = Ok (x, v).
Proof.
  intros Hx. apply at_in_range; [|exact Hx].
  apply lookup_lt_Some in Hx. rewrite size_elements. lia.
Qed.
End ModifierRuns.

(** X11: [push_back(x)] never fails and adds one element at the end:
    [x] is then what [peek_back()] and [at(old size)] return, and every
    index below the old size still yields what it did. *)
Theorem push_back_contract {T} (x : T) (v : Vec T) :
  exists v',
    push_back x v = Ok (tt, v')
    /\ size v' = size v + 1
    /\ peek_back v' = Ok (x, v')
    /\ at_ (size v) v' = Ok (x, v')
    /\ (forall i y, at_ i v = Ok (y, v) -> at_ i v' = Ok (y, v')).
Proof.
  eexists. split; [apply push_back_run|].
  set (v' := mkVec _).
  assert (He : elements v' = elements v ++ [x]) by reflexivity.
  assert (Hs : size v' = size v + 1).
  { rewrite !size_elements, He, length_app. simpl. lia. }
  split; [exact Hs|]. split; [|split].
  - destruct (peek_back_nonempty v') as (y & Hy & Hp); [lia|].
    rewrite He, last_snoc in Hy. congruence.
  - apply at_lookup. rewrite He, size_elements, Nat2N.id.
    apply list_lookup_middle. reflexivity.
  - intros i y Hat.
    destruct (N.lt_ge_cases i (size v)) as [Hi|Hi].
    + destruct (lookup_in_range (elements v) i) as [z Hz].
      { rewrite <- size_elements. exact Hi. }
      rewrite (at_in_range v i z Hi Hz) in Hat.
      injection Hat as <-.
      apply at_lookup. rewrite He. apply lookup_app_l_Some, Hz.
    + rewrite at_out_of_range in Hat by exact Hi. discriminate.
Qed.

(** X12: [push_back(x)] followed by [pop_back()] returns [x] and leaves
    the elements as they were; the capacity has not gone down. *)
Theorem push_back_pop_back {T} (x : T) (v : Vec T) :
  exists v',
    (push_back x ;; pop_back) v = Ok (Some x, v')
    /\ elements v' = elements v
    /\ size v' = size v
    /\ cap v <= cap v'.
Proof.
  unfold bind. rewrite push_back_run.
  set (v1 := mkVec _).
  assert (He : elements v1 = elements v ++ [x]) by reflexivity.
  destruct (pop_back_nonempty v1) as (y & Hy & Hp).
  { rewrite size_elements, He, length_app. simpl. lia. }
  rewrite He, last_snoc in Hy. injection Hy as <-.
  rewrite Hp. eexists. split; [reflexivity|].
  assert (Hel : removelast (elements v1) = elements v).
  { rewrite He. apply removelast_last. }
  split; [exact Hel|].
  split; [rewrite !size_elements; unfold elements at 1; simpl; rewrite Hel;
          reflexivity|].
  apply grow_keeps.
Qed.

(** X13: [pop_back()] and [peek_back()] agree: [pop_back()] returns a
    value exactly when [peek_back()] returns that value, and returns no
    value exactly when [peek_back()] throws. *)
Theorem pop_back_peek_back {T} (v : Vec T) :
  (forall x, (exists v', pop_back v = Ok (Some x, v'))
             <-> peek_back v = Ok (x, v))
  /\ (pop_back v = Ok (None, v) <-> exists e, peek_back v = Throw e).
Proof.
  assert (Hcases : size v = 0 \/ 0 < size v) by lia.
  destruct Hcases as [Hz|Hpos].
  - rewrite (pop_back_empty v Hz), (peek_back_empty v Hz). split.
    + intros x. split; [intros [v' Hv']|intros Hv']; discriminate.
    + split; [eauto|reflexivity].
  - destruct (pop_back_nonempty v Hpos) as (y & Hy & Hp).
    destruct (peek_back_nonempty v Hpos) as (z & Hz & Hq).
    assert (z = y) as -> by congruence.
    rewrite Hp, Hq. split.
    + intros x. split.
      * intros [v' Hv']. congruence.
      * intros Hx. injection Hx as <-. eauto.
    + split; [discriminate|intros [e He]; discriminate].
Qed.

(** X14: on a non-empty container [peek_front()] is [at(0)] and
    [peek_back()] is [at(size - 1)]. *)
Theorem peek_is_at {T} (v : Vec T) :
  0 < size v ->
  peek_front v = at_ 0 v /\ peek_back v = at_ (size v - 1) v.
Proof.
  intros Hpos.
  destruct (peek_front_nonempty v Hpos) as (x & Hx & Hf).
  destruct (peek_back_nonempty v Hpos) as (y & Hy & Hb).
  rewrite Hf, Hb. split; symmetry; apply at_lookup.
  - rewrite <- head_lookup. exact Hx.
  - rewrite last_lookup in Hy. rewrite size_elements.
    replace (N.to_nat (N.of_nat (length (elements v)) - 1))
      with (Nat.pred (length (elements v))) by lia.
    exact Hy.
Qed.

Lemma peek_is_at_witness :
  peek_front (Vec_list [7; 8; 9]%Z) = at_ 0 (Vec_list [7; 8; 9]%Z)
  /\ peek_back (Vec_list [7; 8; 9]%Z)
     = at_ (size (Vec_list [7; 8; 9]%Z) - 1) (Vec_list [7; 8; 9]%Z).
Proof.
  apply (peek_is_at (Vec_list [7; 8; 9]%Z)). vm_compute. reflexivity.
Defined.

(** X15: [insert(at, x)] at a position up to the end puts [x] there and
    returns that position: the size grows by one, [at(at)] is [x], the
    elements before keep their index and those from [at] on move up by
    one. *)
Theorem insert_contract {T} (pos : Size) (x : T) (v : Vec T) :
  pos <= size v ->
  exists v',
    insert pos x v = Ok (pos, v')
    /\ size v' = size v + 1
    /\ at_ pos v' = Ok (x, v')
    /\ (forall i, i < pos ->
          elements v' !! N.to_nat i = elements v !! N.to_nat i)
    /\ (forall i, pos <= i ->
          elements v' !! N.to_nat (i + 1) = elements v !! N.to_nat i).
Proof.
  intros Hp. unfold insert, std_vector.insert.
  rewrite insert_run_ok by exact Hp.
  eexists. split; [reflexivity|].
  set (v' := mkVec _).
  assert (Hlen : (N.to_nat pos <= length (elements v))%nat)
    by (rewrite size_elements in Hp; lia).
  assert (He : elements v'
               = take (N.to_nat pos) (elements v)
                 ++ x :: drop (N.to_nat pos) (elements v)) by reflexivity.
  assert (Htake : length (take (N.to_nat pos) (elements v)) = N.to_nat pos)
    by (apply length_take_le; exact Hlen).
  split; [|split; [|split]].
  - rewrite !size_elements, He, length_app, Htake. simpl.
    rewrite length_drop. lia.
  - apply at_lookup. rewrite He. apply list_lookup_middle.
    symmetry. exact Htake.
  - intros i Hi. rewrite He, lookup_app_l by lia.
    apply lookup_take_lt. lia.
  - intros i Hi. rewrite He, lookup_app_r by lia.
    rewrite Htake.
    replace (N.to_nat (i + 1) - N.to_nat pos)%nat
      with (S (N.to_nat i - N.to_nat pos)) by lia.
    simpl. rewrite lookup_drop. f_equal. lia.
Qed.

Lemma insert_contract_witness :
  exists v',
    insert 1 4%Z (Vec_list [7; 8; 9]%Z) = Ok (1, v')
    /\ size v' = size (Vec_list [7; 8; 9]%Z) + 1
    /\ at_ 1 v' = Ok (4%Z, v')
    /\ (forall i, i < 1 ->
          elements v' !! N.to_nat i
          = elements (Vec_list [7; 8; 9]%Z) !! N.to_nat i)
    /\ (forall i, 1 <= i ->
          elements v' !! N.to_nat (i + 1)
          = elements (Vec_list [7; 8; 9]%Z) !! N.to_nat i).
Proof.
  apply (insert_contract 1 4%Z (Vec_list [7; 8; 9]%Z)).
  vm_compute. discriminate.
Defined.

(** X16: [remove(at)] at a position that holds an element takes it out
    and returns that position: the size drops by one, the elements before
    keep their index and those after move down by one. *)
Theorem remove_contract {T} (pos : Size) (v : Vec T) :
  pos < size v ->
  exists v',
    remove pos v = Ok (pos, v')
    /\ size v' = size v - 1
    /\ (forall i, i < pos ->
          elements v' !! N.to_nat i = elements v !! N.to_nat i)
    /\ (forall i, pos <= i ->
          elements v' !! N.to_nat i = elements v !! N.to_nat (i + 1)).
Proof.
  intros Hp. rewrite remove_run by exact Hp.
  eexists. split; [reflexivity|].
  set (v' := mkVec _).
  assert (He : elements v' = delete (N.to_nat pos) (elements v))
    by reflexivity.
  assert (Hlen : (N.to_nat pos < length (elements v))%nat)
    by (rewrite size_elements in Hp; lia).
  split; [|split].
  - rewrite !size_elements, He, length_delete.
    + lia.
    + apply lookup_lt_is_Some_2. exact Hlen.
  - intros i Hi. rewrite He. apply list_lookup_delete_lt. lia.
  - intros i Hi. rewrite He, list_lookup_delete_ge by lia.
    f_equal. lia.
Qed.

Lemma remove_contract_witness :
  exists v',
    remove 0 (Vec_list [7; 8; 9]%Z) = Ok (0, v')
    /\ size v' = size (Vec_list [7; 8; 9]%Z) - 1
    /\ (forall i, i < 0 ->
          elements v' !! N.to_nat i
          = elements (Vec_list [7; 8; 9]%Z) !! N.to_nat i)
    /\ (forall i, 0 <= i ->
          elements v' !! N.to_nat i
          = elements (Vec_list [7; 8; 9]%Z) !! N.to_nat (i + 1)).
Proof.
  apply (remove_contract 0 (Vec_list [7; 8; 9]%Z)).
  vm_compute. reflexivity.
Defined.



(** X18: [insert(at, x)] followed by [remove] of the iterator it returns
    leaves the elements as they were. *)
Theorem insert_remove {T} (pos : Size) (x : T) (v : Vec T) :
  pos <= size v ->
  exists v',
    (it <- insert pos x ;; remove it) v = Ok (pos, v')
    /\ elements v' = elements v.
Proof.
  intros Hp. unfold bind, insert, std_vector.insert.
  rewrite insert_run_ok by exact Hp.
  set (v1 := mkVec _).
  assert (Hlen : (N.to_nat pos <= length (elements v))%nat)
    by (rewrite size_elements in Hp; lia).
  assert (Htake : length (take (N.to_nat pos) (elements v)) = N.to_nat pos)
    by (apply length_take_le; exact Hlen).
  assert (He : elements v1
               = take (N.to_nat pos) (elements v)
                 ++ x :: drop (N.to_nat pos) (elements v)) by reflexivity.
  rewrite remove_run.
  - eexists. split; [reflexivity|].
    unfold elements at 1. simpl. rewrite He.
    rewrite <- Htake at 1. rewrite delete_middle.
    apply take_drop.
  - rewrite size_elements, He, length_app, Htake. simpl. lia.
Qed.

Lemma insert_remove_witness :
  exists v',
    (it <- insert 3 4%Z ;; remove it) (Vec_list [7; 8; 9]%Z) = Ok (3, v')
    /\ elements v' = elements (Vec_list [7; 8; 9]%Z).
Proof.
  apply (insert_remove 3 4%Z (Vec_list [7; 8; 9]%Z)).
  vm_compute. discriminate.
Defined.

(** X19: a modifier handed a run of no elements changes nothing and
    returns the position it was given: [fill] with a count of 0,
    [insert_list] with an empty list, [insert_range] over an empty range
    of a valid iterator, and [remove_range] between equal positions. *)
Theorem zero_length_unchanged {R T} (it : vector.Iterator R T)
    (pos : Size) (x : T) (v : Vec T) :
  pos <= size v ->
  within_capacity v ->
  vector.IsValidIterator it = true ->
  fill pos 0 x v = Ok (pos, v)
  /\ insert_list pos [] v = Ok (pos, v)
  /\ insert_range it pos [] v = Ok (pos, v)
  /\ remove_range pos pos v = Ok (pos, v).
Proof.
  intros Hp Hcap Hit.
  assert (Hsame : forall run, run = [] ->
            on_self (std_vector.insert_run pos run) v = Ok (pos, v)).
  { intros run ->. rewrite insert_run_ok by exact Hp. do 2 f_equal.
    apply Vec_eq.
    - unfold elements at 1. simpl. apply take_drop.
    - unfold cap at 1. simpl. apply grow_enough.
      unfold within_capacity in Hcap. simpl. lia. }
  split; [|split; [|split]].
  - apply Hsame. reflexivity.
  - apply Hsame. reflexivity.
  - unfold insert_range. rewrite Hit.
    destruct (IsValidIterator_constructible it Hit) as [f ->].
    apply Hsame. reflexivity.
  - rewrite remove_range_run by lia. do 2 f_equal.
    apply Vec_eq; [|reflexivity].
    unfold elements at 1. simpl. apply take_drop.
Qed.

Lemma zero_length_unchanged_witness :
  fill 2 0 5%Z (Vec_list [7; 8; 9]%Z) = Ok (2, Vec_list [7; 8; 9]%Z)
  /\ insert_list 2 [] (Vec_list [7; 8; 9]%Z) = Ok (2, Vec_list [7; 8; 9]%Z)
  /\ insert_range int_pointer 2 [] (Vec_list [7; 8; 9]%Z)
     = Ok (2, Vec_list [7; 8; 9]%Z)
  /\ remove_range 2 2 (Vec_list [7; 8; 9]%Z) = Ok (2, Vec_list [7; 8; 9]%Z).
Proof.
  apply (zero_length_unchanged int_pointer 2 5%Z (Vec_list [7; 8; 9]%Z)).
  - vm_compute. discriminate.
  - vm_compute. discriminate.
  - reflexivity.
Defined.






(** X23: after [shrink()] on a container whose allocation holds its
    elements, the elements are the same, the capacity is at least the
    size and not above the old capacity. *)
Theorem shrink_contract {T} (v : Vec T) :
  within_capacity v ->
  exists v',
    shrink v = Ok (tt, v')
    /\ elements v' = elements v
    /\ size v' <= cap v'
    /\ cap v' <= cap v.
Proof.
  unfold within_capacity. intros Hcap.
  eexists. split; [reflexivity|].
  set (v' := mkVec _).
  assert (Hc : cap v' = if size v <? cap v then size v else cap v)
    by reflexivity.
  assert (Hs : size v' = size v) by reflexivity.
  split; [reflexivity|]. rewrite Hc, Hs.
  destruct (N.ltb_spec (size v) (cap v)); lia.
Qed.

Lemma shrink_contract_witness :
  exists v',
    shrink (mkVec (std_vector.mk [7; 8; 9]%Z 8)) = Ok (tt, v')
    /\ elements v' = elements (mkVec (std_vector.mk [7; 8; 9]%Z 8))
    /\ size v' <= cap v'
    /\ cap v' <= cap (mkVec (std_vector.mk [7; 8; 9]%Z 8)).
Proof.
  apply (shrink_contract (mkVec (std_vector.mk [7; 8; 9]%Z 8))).
  vm_compute. discriminate.
Defined.

(** ** The capacity invariant *)

Section Capacity.
Context {T : Type}.

Lemma within_capacity_mk (l : list T) (c : Size) :
  within_capacity (mkVec (std_vector.mk l c)) <-> N.of_nat (length l) <= c.
Proof. reflexivity. Qed.

Lemma insert_run_keeps (pos : Size) (run : list T) :
  keeps_capacity (on_self (std_vector.insert_run pos run)).
Proof.
  intros v a v' Hcap Hrun.
  destruct (N.le_gt_cases pos (size v)) as [Hp|Hp].
  - rewrite insert_run_ok in Hrun by exact Hp.
    injection Hrun as _ <-. apply within_capacity_mk.
    pose proof (grow_needed (cap v) (size v + N.of_nat (length run))) as Hg.
    pose proof (size_elements v) as Hs.
    rewrite !length_app, length_take, length_drop. lia.
  - unfold on_self, std_vector.insert_run in Hrun.
    change (std_vector.size (self v)) with (size v) in Hrun.
    destruct (N.leb_spec pos (size v)); [lia|discriminate].
Qed.
End Capacity.


(** X25: every modifier keeps the capacity at or above the size:
    [push_back], [pop_back], [clear], [insert], [fill], [insert_list],
    [insert_range], [remove], [remove_range], [request_cap], [resize],
    [shrink], [reassign] and [with]. *)
Theorem modifiers_keep_capacity {R T} `{numeric_limits T}
    (it : vector.Iterator R T) (range : list R)
    (x : T) (pos n last_ : Size) (list : list T)
    (pat : pattern.Pattern T) :
  keeps_capacity (push_back x)
  /\ keeps_capacity (pop_back (T:=T))
  /\ keeps_capacity (clear (T:=T))
  /\ keeps_capacity (insert pos x)
  /\ keeps_capacity (fill pos n x)
  /\ keeps_capacity (insert_list pos list)
  /\ keeps_capacity (insert_range it pos range)
  /\ keeps_capacity (remove (T:=T) pos)
  /\ keeps_capacity (remove_range (T:=T) pos last_)
  /\ keeps_capacity (request_cap (T:=T) n)
  /\ keeps_capacity (resize_val n x)
  /\ keeps_capacity (shrink (T:=T))
  /\ keeps_capacity (reassign list)
  /\ (forall v result v',
        size v < Size_modulus -> within_capacity v ->
        with_ pat v = Ok (result, v') ->
        within_capacity v' /\ within_capacity result).
Proof.
  repeat match goal with |- _ /\ _ => split end.
  - intros v a v' Hcap Hrun. rewrite push_back_run in Hrun.
    injection Hrun as _ <-. apply within_capacity_mk.
    pose proof (grow_needed (cap v) (size v + 1)) as Hg.
    pose proof (size_elements v) as Hs.
    rewrite length_app. simpl. lia.
  - intros v a v' Hcap Hrun.
    destruct (N.eq_0_gt_0_cases (size v)) as [Hz|Hpos].
    + rewrite (pop_back_empty v Hz) in Hrun. injection Hrun as _ <-.
      exact Hcap.
    + destruct (pop_back_nonempty v Hpos) as (y & _ & Hp).
      rewrite Hp in Hrun. injection Hrun as _ <-.
      apply within_capacity_mk. unfold within_capacity in Hcap.
      rewrite size_elements in Hcap. rewrite length_removelast. lia.
  - intros v a v' Hcap Hrun. injection Hrun as _ <-.
    apply within_capacity_mk. simpl. lia.
  - apply insert_run_keeps.
  - apply insert_run_keeps.
  - apply insert_run_keeps.
  - intros v a v' Hcap Hrun. unfold insert_range in Hrun.
    destruct (vector.IsValidIterator it); [|discriminate].
    destruct (vector.construct it) as [f|]; [|discriminate].
    exact (insert_run_keeps pos (map f range) v a v' Hcap Hrun).
  - intros v a v' Hcap Hrun.
    destruct (N.lt_ge_cases pos (size v)) as [Hp|Hp].
    + rewrite remove_run in Hrun by exact Hp. injection Hrun as _ <-.
      apply within_capacity_mk. unfold within_capacity in Hcap.
      rewrite size_elements in Hcap, Hp. rewrite length_delete.
      * lia.
      * apply lookup_lt_is_Some_2. lia.
    + unfold remove, on_self, std_vector.erase in Hrun.
      change (std_vector.size (self v)) with (size v) in Hrun.
      destruct (N.ltb_spec pos (size v)); [lia|discriminate].
  - intros v a v' Hcap Hrun.
    unfold remove_range, on_self, std_vector.erase_range in Hrun.
    destruct (N.leb_spec pos last_) as [Hle|Hgt]; [|discriminate].
    destruct (_ <=? _); [|discriminate]. injection Hrun as _ <-.
    apply within_capacity_mk. unfold within_capacity in Hcap.
    rewrite size_elements in Hcap.
    change (std_vector.elems (self v)) with (elements v).
    change (std_vector.capacity (self v)) with (cap v).
    rewrite length_app, length_take, length_drop. lia.
  - intros v a v' Hcap Hrun. injection Hrun as _ <-.
    apply within_capacity_mk. unfold within_capacity in Hcap.
    rewrite size_elements in Hcap.
    change (std_vector.elems (self v)) with (elements v).
    change (std_vector.capacity (self v)) with (cap v).
    destruct (N.ltb_spec (cap v) n); lia.
  - intros v a v' Hcap Hrun. injection Hrun as _ <-.
    apply within_capacity_mk. rewrite length_resize.
    pose proof (grow_needed (std_vector.capacity (self v)) n). lia.
  - intros v a v' Hcap Hrun. injection Hrun as _ <-.
    apply within_capacity_mk. unfold within_capacity in Hcap.
    rewrite size_elements in Hcap.
    change (std_vector.size (self v)) with (size v).
    change (std_vector.elems (self v)) with (elements v).
    change (std_vector.capacity (self v)) with (cap v).
    rewrite size_elements.
    destruct (N.ltb_spec (N.of_nat (length (elements v))) (cap v)); lia.
  - intros v a v' Hcap Hrun. injection Hrun as _ <-.
    apply within_capacity_mk. apply grow_needed.
  - intros v result v' Hsz Hcap Hrun'.
    unfold with_, with_fuel in Hrun'.
    destruct (is_integer T) eqn:Hint; [|discriminate].
    destruct (with_run pat v Hint Hsz) as (w & Hrun & Hlen & Hc & _).
    unfold with_, with_fuel in Hrun. rewrite Hint in Hrun.
    rewrite Hrun in Hrun'. injection Hrun' as <- <-.
    split.
    + unfold within_capacity in *. rewrite size_elements in *. lia.
    + apply within_capacity_mk. lia.
Qed.

(** ** How the members relate *)

Lemma modifiers_keep_capacity_witness :
  within_capacity (mkVec (std_vector.mk [7; 8; 9; 10]%Z 6))
  /\ within_capacity (mkVec (std_vector.mk [7; 8; 9]%Z 6)).
Proof.
  assert (Hv : within_capacity (Vec_list [7; 8; 9]%Z))
    by (vm_compute; discriminate).
  destruct (modifiers_keep_capacity int_pointer [] 10%Z 0 0 0 []
              (pattern.Incr 1%Z)) as (Hpush & Hpop & _).
  split.
  - apply (Hpush (Vec_list [7; 8; 9]%Z) tt); [exact Hv|reflexivity].
  - apply (Hpop (mkVec (std_vector.mk [7; 8; 9; 10]%Z 6)) (Some 10%Z)).
    + vm_compute. discriminate.
    + reflexivity.
Defined.

(** X26: once [clear()] has run the container is empty for every member:
    [is_empty()] holds, both peeks throw [NoSuchElement], [pop_back()]
    returns no value, and [at] and [operator[]] throw at every index. *)
Theorem after_clear {T} (v : Vec T) :
  exists v',
    clear v = Ok (tt, v')
    /\ is_empty v' = true
    /\ peek_front v' = Throw (error.NoSuchElement "vector is empty.")
    /\ peek_back v' = Throw (error.NoSuchElement "vector is empty.")
    /\ pop_back v' = Ok (None, v')
    /\ (forall i, exists message,
          at_ i v' = Throw (error.IndexOutOfBounds message))
    /\ (forall i, exists message,
          operator_subscript i v' = Throw (error.IndexOutOfBounds message)).
Proof.
  eexists. split; [reflexivity|].
  set (v' := mkVec _).
  assert (Hz : size v' = 0) by reflexivity.
  split; [reflexivity|].
  split; [apply peek_front_empty, Hz|].
  split; [apply peek_back_empty, Hz|].
  split; [apply pop_back_empty, Hz|].
  split; intros i; eexists.
  - apply at_out_of_range. lia.
  - apply subscript_out_of_range. lia.
Qed.



(** X28: [insert(end(), x)] leaves the container that [push_back(x)]
    leaves, and returns the position of the new last element. *)
Theorem insert_at_end_is_push_back {T} (x : T) (v : Vec T) :
  exists v',
    push_back x v = Ok (tt, v')
    /\ insert (end_ v) x v = Ok (size v, v').
Proof.
  eexists. split; [apply push_back_run|].
  unfold insert, std_vector.insert, end_.
  rewrite insert_run_ok by lia. do 2 f_equal.
  apply Vec_eq; [|reflexivity].
  unfold elements at 1 4. simpl.
  rewrite size_elements, Nat2N.id.
  rewrite take_ge, drop_ge by lia. reflexivity.
Qed.

(** X29: [remove_range(begin(), end())] leaves the container that
    [clear()] leaves: no element, the capacity as it was. *)
Theorem remove_all_is_clear {T} (v : Vec T) :
  exists v',
    clear v = Ok (tt, v')
    /\ remove_range (begin_ v) (end_ v) v = Ok (0, v').
Proof.
  eexists. split; [reflexivity|].
  unfold begin_, end_. rewrite remove_range_run by lia.
  do 2 f_equal. apply Vec_eq; [|reflexivity].
  unfold elements at 1 3. simpl.
  rewrite size_elements, Nat2N.id, drop_all. reflexivity.
Qed.

Lemma delete_last {T} (l : list T) :
  delete (Nat.pred (length l)) l = removelast l.
Proof.
  destruct l as [|y l _] using rev_ind; [reflexivity|].
  rewrite removelast_last, length_app. simpl.
  replace (Nat.pred (length l + 1)) with (length l) by lia.
  rewrite delete_middle. apply app_nil_r.
Qed.

(** X30: on a non-empty container [remove(end() - 1)] leaves the
    container that [pop_back()] leaves. *)
Theorem remove_last_is_pop_back {T} (v : Vec T) :
  0 < size v ->
  exists x v',
    pop_back v = Ok (Some x, v')
    /\ remove (end_ v - 1) v = Ok (size v - 1, v').
Proof.
  intros Hpos.
  destruct (pop_back_nonempty v Hpos) as (x & Hx & Hp).
  eexists x, _. split; [exact Hp|].
  unfold end_. rewrite remove_run by lia. do 2 f_equal.
  apply Vec_eq; [|reflexivity].
  unfold elements at 1 3. simpl. rewrite size_elements.
  replace (N.to_nat (N.of_nat (length (elements v)) - 1))
    with (Nat.pred (length (elements v))) by lia.
  apply delete_last.
Qed.

Lemma remove_last_is_pop_back_witness :
  exists x v',
    pop_back (Vec_list [7; 8; 9]%Z) = Ok (Some x, v')
    /\ remove (end_ (Vec_list [7; 8; 9]%Z) - 1) (Vec_list [7; 8; 9]%Z)
       = Ok (size (Vec_list [7; 8; 9]%Z) - 1, v').
Proof.
  apply (remove_last_is_pop_back (Vec_list [7; 8; 9]%Z)).
  vm_compute. reflexivity.
Defined.
